(** * ip-worker: the address classifier and the field projector

    A shallow embedding of [src/index.ts] (the Hono worker that reports the
    caller's IP address and the platform's geolocation attributes), with the
    properties its specification states about it.

    Modelling conventions.
    - A JavaScript string is a [string]; each [ascii] stands for one code
      unit below 256, so the white space that [trim] removes is the part of
      the ECMAScript WhiteSpace and LineTerminator sets that lies in that
      range.
    - A dictionary ([Record<string, any>]: the platform's [cf] object, the
      objects the worker builds with literals and spreads) is an ordinary
      object: a [gmap string value] of its own data properties, with
      [Object.prototype] above it.  Any string can be a key, [hasOwnProperty]
      and [__proto__] included.
    - The object the projector fills in its loop is an [object]: own
      properties and a prototype, since an assignment to [__proto__] may
      replace the prototype instead of creating a key.
    - Values are the values the worker copies around; [VUndefined] is what a
      read of a missing property yields.  A nested object of the platform
      data is held by reference, [VObject ref]; such objects are plain data
      (own writable data properties, [Object.prototype] above them, not
      callable), and a [store] gives the own properties of each.
    - A call that raises is a [Throw]; [string | undefined] is
      [option string]. *)

From Stdlib Require Import ZArith List Bool Ascii String.
From stdpp Require Import base tactics option list gmap strings.
Import ListNotations.

Local Open Scope Z_scope.

(** ** Values and objects *)

Inductive value : Type :=
| VUndefined
| VNull
| VBool (b : bool)
| VNum (n : Z)
| VStr (s : string)
| VObject (ref : positive).

#[global] Instance value_eq_dec : EqDecision value.
Proof. solve_decision. Defined.

Abbreviation obj := (gmap string value).

(** [o.k] and [o[k]]: the own property, [undefined] when there is none. *)
Definition get (o : obj) (k : string) : value :=
  match o !! k with
  | Some v => v
  | None => VUndefined
  end.

(** The own properties of the nested objects that [VObject] refers to. *)
Abbreviation store := (positive → obj).

(** What is above an object: [Object.prototype], nothing, or a nested object
    of the platform data (itself below [Object.prototype]). *)
Inductive prototype : Type :=
| ObjectPrototype
| NullPrototype
| PlatformObject (ref : positive).

#[global] Instance prototype_eq_dec : EqDecision prototype.
Proof. solve_decision. Defined.

Record object : Type := mkObject {
  own : obj;
  proto : prototype
}.

#[global] Instance object_eq_dec : EqDecision object.
Proof. solve_decision. Defined.

(** [{}] *)
Definition emptyObject : object := {| own := ∅; proto := ObjectPrototype |}.

Inductive error : Type := TypeError.

#[global] Instance error_eq_dec : EqDecision error.
Proof. solve_decision. Defined.

(** The outcome of a call: a value, or an exception. *)
Inductive completion (A : Type) : Type :=
| Normal (a : A)
| Throw (e : error).

Arguments Normal {A} a.
Arguments Throw {A} e.

#[global] Instance completion_eq_dec {A} `{EqDecision A} : EqDecision (completion A).
Proof. solve_decision. Defined.

(** [o.hasOwnProperty(k)] on a dictionary.  The method is looked up on [o]
    itself: an own property of that name comes first, and since the values
    of a dictionary are not callable the call then raises a [TypeError];
    otherwise it is the method of [Object.prototype]. *)
Definition hasOwnProperty (o : obj) (k : string) : completion bool :=
  match o !! "hasOwnProperty" with
  | Some _ => Throw TypeError
  | None =>
      match o !! k with
      | Some _ => Normal true
      | None => Normal false
      end
  end.

(** The setter of the accessor [Object.prototype.__proto__]: an object or
    [null] becomes the prototype, any other value is ignored; no property is
    created. *)
Definition setPrototypeOf (o : object) (v : value) : object :=
  match v with
  | VNull => {| own := own o; proto := NullPrototype |}
  | VObject ref => {| own := own o; proto := PlatformObject ref |}
  | _ => o
  end.

(** An own data property is created or overwritten. *)
Definition defineOwn (o : object) (k : string) (v : value) : object :=
  {| own := <[k := v]> (own o); proto := proto o |}.

(** [o[k] = v].  An own property is overwritten.  Otherwise the property is
    looked for above [o]: every property found there is a writable data
    property, and the assignment creates an own property, except the accessor
    [__proto__] of [Object.prototype], whose setter is called instead.  That
    accessor is reached unless the prototype is [null] or a nested object
    with an own property [__proto__]. *)
Definition assign (heap : store) (o : object) (k : string) (v : value) : object :=
  if decide (k = "__proto__") then
    match own o !! k with
    | Some _ => defineOwn o k v
    | None =>
        match proto o with
        | ObjectPrototype => setPrototypeOf o v
        | NullPrototype => defineOwn o k v
        | PlatformObject ref =>
            match heap ref !! k with
            | Some _ => defineOwn o k v
            | None => setPrototypeOf o v
            end
        end
    end
  else defineOwn o k v.

(** [for (const x of items) body], with the object the body works on. *)
Fixpoint forOf (body : object → string → completion object) (items : list string)
    (o : object) : completion object :=
  match items with
  | [] => Normal o
  | x :: rest =>
      match body o x with
      | Normal o' => forOf body rest o'
      | Throw e => Throw e
      end
  end.

(** [{...base, ...ext}]: the properties of [ext] win. *)
Definition spread (base ext : obj) : obj := ext ∪ base.

(** [s || d] on [string | undefined]: the empty string is falsy too. *)
Definition or_else (s : option string) (d : string) : string :=
  match s with
  | Some (String c r) => String c r
  | _ => d
  end.

(** ** Strings *)

Module Str.

Fixpoint chars (s : string) : list ascii :=
  match s with
  | EmptyString => []
  | String c r => c :: chars r
  end.

Definition code (c : ascii) : N := N_of_ascii c.

(** [\d] without the unicode flag: the ten ASCII digits. *)
Definition is_digit (c : ascii) : bool :=
  ((48 <=? code c) && (code c <=? 57))%N.

(** White space and line terminators among the code units below 256:
    TAB, LF, VT, FF, CR, SP and NBSP. *)
Definition is_white (c : ascii) : bool :=
  ((9 <=? code c) && (code c <=? 13) || (code c =? 32) || (code c =? 160))%N.

Definition all (p : ascii -> bool) (s : string) : bool := forallb p (chars s).

Definition contains (c : ascii) (s : string) : bool :=
  existsb (fun x => Ascii.eqb x c) (chars s).

(** [s.split(sep)] for a one-character separator. *)
Fixpoint split (sep : ascii) (s : string) : list string :=
  match s with
  | EmptyString => [EmptyString]
  | String c r =>
      if Ascii.eqb c sep then EmptyString :: split sep r
      else match split sep r with
           | piece :: pieces => String c piece :: pieces
           | [] => [String c EmptyString]
           end
  end.

(** [pieces.join(sep)] *)
Fixpoint join (sep : ascii) (pieces : list string) : string :=
  match pieces with
  | [] => EmptyString
  | [p] => p
  | p :: rest => p +:+ String sep (join sep rest)
  end.

Fixpoint trimStart (s : string) : string :=
  match s with
  | EmptyString => EmptyString
  | String c r => if is_white c then trimStart r else s
  end.

Fixpoint trimEnd (s : string) : string :=
  match s with
  | EmptyString => EmptyString
  | String c r =>
      match trimEnd r with
      | EmptyString => if is_white c then EmptyString else String c EmptyString
      | t => String c t
      end
  end.

(** [s.trim()] *)
Definition trim (s : string) : string := trimEnd (trimStart s).

Definition first (s : string) : option ascii :=
  match s with
  | EmptyString => None
  | String c _ => Some c
  end.

Fixpoint last (s : string) : option ascii :=
  match s with
  | EmptyString => None
  | String c EmptyString => Some c
  | String _ r => last r
  end.

End Str.

(** ** Regular expressions

    The fragment of the ECMAScript pattern language that [ipv4Pattern] is
    written in, matched by derivatives.  A pattern between [^] and [$]
    (no [m] flag) has to match the whole input. *)

Module Regex.

Inductive regex : Type :=
| Void
| Eps
| Lit (c : ascii)
| Digit
| Cat (r1 r2 : regex)
| Alt (r1 r2 : regex).

(** [r{n}] *)
Fixpoint times (r : regex) (n : nat) : regex :=
  match n with
  | O => Eps
  | S n' => Cat r (times r n')
  end.

(** [r{0,n}] *)
Fixpoint upto (r : regex) (n : nat) : regex :=
  match n with
  | O => Eps
  | S n' => Alt Eps (Cat r (upto r n'))
  end.

(** [r{lo,hi}] *)
Definition Repeat (r : regex) (lo hi : nat) : regex :=
  Cat (times r lo) (upto r (hi - lo)).

Fixpoint nullable (r : regex) : bool :=
  match r with
  | Void => false
  | Eps => true
  | Lit _ => false
  | Digit => false
  | Cat r1 r2 => nullable r1 && nullable r2
  | Alt r1 r2 => nullable r1 || nullable r2
  end.

Fixpoint deriv (a : ascii) (r : regex) : regex :=
  match r with
  | Void => Void
  | Eps => Void
  | Lit c => if Ascii.eqb a c then Eps else Void
  | Digit => if Str.is_digit a then Eps else Void
  | Cat r1 r2 =>
      if nullable r1 then Alt (Cat (deriv a r1) r2) (deriv a r2)
      else Cat (deriv a r1) r2
  | Alt r1 r2 => Alt (deriv a r1) (deriv a r2)
  end.

(** [/^r$/.test(s)] *)
Fixpoint test (r : regex) (s : string) : bool :=
  match s with
  | EmptyString => nullable r
  | String a s' => test (deriv a r) s'
  end.

(** The language of a pattern. *)
Fixpoint lang (r : regex) (s : string) : Prop :=
  match r with
  | Void => False
  | Eps => s = EmptyString
  | Lit c => s = String c EmptyString
  | Digit => ∃ c, Str.is_digit c = true ∧ s = String c EmptyString
  | Cat r1 r2 => ∃ s1 s2, s = s1 +:+ s2 ∧ lang r1 s1 ∧ lang r2 s2
  | Alt r1 r2 => lang r1 s ∨ lang r2 s
  end.

End Regex.

(** ** index.ts *)

(** [/^(\d{1,3}\.){3}\d{1,3}$/] *)
Definition ipv4Pattern : Regex.regex :=
  Regex.Cat
    (Regex.Repeat (Regex.Cat (Regex.Repeat Regex.Digit 1 3) (Regex.Lit ".")) 3 3)
    (Regex.Repeat Regex.Digit 1 3).

Definition isIPv4 (ip : string) : bool := Regex.test ipv4Pattern ip.

Definition processIPAddress (ip : string) : obj :=
  if isIPv4 ip then
    <["ip" := VStr ip]> (<["ipv4" := VStr ip]> (<["ipv6" := VNull]>
      (<["ipVersion" := VNum 4]> ∅)))
  else
    <["ip" := VStr ip]> (<["ipv4" := VNull]> (<["ipv6" := VStr ip]>
      (<["ipVersion" := VNum 6]> ∅))).

(** The object literal returned when no field list is given. *)
Definition defaultFields (availableData : obj) : obj :=
  <["ip" := get availableData "ip"]>
  (<["ipv4" := get availableData "ipv4"]>
  (<["ipv6" := get availableData "ipv6"]>
  (<["ipVersion" := get availableData "ipVersion"]>
  (<["country" := get availableData "country"]>
  (<["region" := get availableData "region"]>
  (<["asn" := get availableData "asn"]>
  (<["asOrganization" := get availableData "asOrganization"]>
  (<["userAgent" := get availableData "userAgent"]> ∅)))))))).

(** [fieldsParam.split(',').map(f => f.trim()).filter(f => f.length > 0)] *)
Definition requestedFields (fieldsParam : string) : list string :=
  List.filter (fun field => (0 <? String.length field)%nat)
    (List.map (fun field => Str.trim field) (Str.split "," fieldsParam)).

(** One turn of the loop [for (const field of requestedFields)]. *)
Definition copyField (heap : store) (availableData : obj) (result : object)
    (field : string) : completion object :=
  match hasOwnProperty availableData field with
  | Normal true => Normal (assign heap result field (get availableData field))
  | Normal false => Normal result
  | Throw e => Throw e
  end.

Definition getRequestedFields (heap : store) (fieldsParam : option string)
    (availableData : obj) : completion object :=
  match fieldsParam with
  | Some (String c r) =>
      forOf (copyField heap availableData) (requestedFields (String c r)) emptyObject
  | _ => Normal {| own := defaultFields availableData; proto := ObjectPrototype |}
  end.

(** The keys of [getDocumentation().availableFields], with their documented
    types, in the order of the source. *)
Definition availableFields : list (string * string) :=
  [ ("ip", "string"); ("ipv4", "string | null"); ("ipv6", "string | null");
    ("ipVersion", "number"); ("asn", "number"); ("asOrganization", "string");
    ("city", "string"); ("continent", "string"); ("country", "string");
    ("region", "string"); ("regionCode", "string"); ("timezone", "string");
    ("postalCode", "string"); ("latitude", "string"); ("longitude", "string");
    ("metroCode", "string"); ("colo", "string"); ("isEU", "boolean");
    ("userAgent", "string") ].

Definition catalog : list string := List.map fst availableFields.

(** What the root route reads from the request and from the bindings. *)
Record Request : Type := mkRequest {
  header_cf_connecting_ip : option string;
  header_user_agent : option string;
  raw_cf : option obj;
  query_fields : option string
}.

Record Bindings : Type := mkBindings { DOMAIN : string }.

(** [c.req.header('user-agent') || null] *)
Definition userAgentOf (req : Request) : value :=
  match header_user_agent req with
  | Some (String c r) => VStr (String c r)
  | _ => VNull
  end.

(** [{ ...ipData, ...cfData, userAgent: userAgent }] of the root route. *)
Definition availableData (req : Request) : obj :=
  let ip := or_else (header_cf_connecting_ip req) "no IP" in
  let ipData := processIPAddress ip in
  let cfData := match raw_cf req with Some cf => cf | None => ∅ end in
  let userAgent := userAgentOf req in
  <["userAgent" := userAgent]> (spread ipData cfData).

(** What a route answers: a JSON object, given by its members, or a text. *)
Inductive response : Type :=
| JsonResponse (status : Z) (members : obj)
| TextResponse (status : Z) (text : string).

#[global] Instance response_eq_dec : EqDecision response.
Proof. solve_decision. Defined.

(** The members [JSON.stringify] writes for an object: the own properties
    whose value is not [undefined]. *)
Definition jsonMembers (o : obj) : obj := filter (fun kv => kv.2 ≠ VUndefined) o.

(** [app.onError]: what is answered when the handler raises. *)
Definition onError (e : error) : response :=
  TextResponse 500 "Failed to retrieve ip".

(** The handler of [GET /]: [c.json({...responseData, docs_url: ...})], or
    the answer of [app.onError] when [getRequestedFields] raises. *)
Definition rootRoute (heap : store) (env : Bindings) (req : Request) : response :=
  let fieldsParam := query_fields req in
  match getRequestedFields heap fieldsParam (availableData req) with
  | Normal responseData =>
      JsonResponse 200
        (jsonMembers
           (<["docs_url" := VStr ("https://" +:+ DOMAIN env +:+ "/docs")]>
              (own responseData)))
  | Throw e => onError e
  end.

(** ** The specification's reading of an IPv4 literal

    Four groups separated by dots, each of one to three digits. *)

Definition digit_group (g : string) : bool :=
  (1 <=? String.length g)%nat && (String.length g <=? 3)%nat
  && Str.all Str.is_digit g.

Definition ipv4_literal_shape (s : string) : bool :=
  match Str.split "." s with
  | [a; b; c; d] => digit_group a && digit_group b && digit_group c && digit_group d
  | _ => false
  end.

(** The two documents of the classifier, as the specification writes them. *)
Definition ipv4_document (s : string) : obj :=
  {[ "ip" := VStr s; "ipv4" := VStr s; "ipv6" := VNull; "ipVersion" := VNum 4 ]}.

Definition ipv6_document (s : string) : obj :=
  {[ "ip" := VStr s; "ipv4" := VNull; "ipv6" := VStr s; "ipVersion" := VNum 6 ]}.

(** The nine keys of the default document. *)
Definition default_keys : list string :=
  ["ip"; "ipv4"; "ipv6"; "ipVersion"; "country"; "region"; "asn";
   "asOrganization"; "userAgent"].

(** [t] is [p] without its leading and trailing white space. *)
Definition trimmed_of (p t : string) : Prop :=
  ∃ l r, p = l +:+ t +:+ r
    ∧ Str.all Str.is_white l = true ∧ Str.all Str.is_white r = true
    ∧ (∀ c, Str.first t = Some c → Str.is_white c = false)
    ∧ (∀ c, Str.last t = Some c → Str.is_white c = false).

(** A request of an IPv4 client for which the platform knows every field of
    the catalog, and a field list that names them all. *)
Definition sample_cf : obj :=
  list_to_map
    [ ("asn", VNum 15169); ("asOrganization", VStr "Google LLC");
      ("city", VStr "San Francisco"); ("continent", VStr "NA");
      ("country", VStr "US"); ("region", VStr "California");
      ("regionCode", VStr "CA"); ("timezone", VStr "America/Los_Angeles");
      ("postalCode", VStr "94102"); ("latitude", VStr "37.7749");
      ("longitude", VStr "-122.4194"); ("metroCode", VStr "807");
      ("colo", VStr "SFO"); ("isEU", VBool false) ].

Definition sample_request : Request :=
  {| header_cf_connecting_ip := Some "203.0.113.1";
     header_user_agent := Some "Mozilla/5.0...";
     raw_cf := Some sample_cf;
     query_fields := None |}.

(** A dictionary of an IPv4 client whose [ipv6] is known to be [null]. *)
Definition null_ipv6_data : obj :=
  {[ "ip" := VStr "203.0.113.1"; "ipv6" := VNull ]}.

Definition all_fields : string := Str.join "," catalog.

(** A request whose [User-Agent] header is present and empty. *)
Definition empty_agent_request : Request :=
  {| header_cf_connecting_ip := Some "203.0.113.1";
     header_user_agent := Some "";
     raw_cf := None;
     query_fields := None |}.

(** ** Further vocabulary

    The rest of the root route and of [getDocumentation], and the predicates
    used to describe what the parser and the pattern accept. *)

(** [c.req.header('cf-connecting-ip') || 'no IP'] *)
Definition connectingIp (req : Request) : string :=
  or_else (header_cf_connecting_ip req) "no IP".

(** [c.req.raw.cf || {}] *)
Definition cfData (req : Request) : obj :=
  match raw_cf req with Some cf => cf | None => ∅ end.

(** The keys of [getDocumentation().endpoints["/"].defaultResponse], with
    their descriptions, in the order of the source. *)
Definition defaultResponse : list (string * string) :=
  [ ("ip", "Client IP address");
    ("ipv4", "IPv4 address (null if IPv6 connection)");
    ("ipv6", "IPv6 address (null if IPv4 connection)");
    ("ipVersion", "IP version (4 or 6)");
    ("country", "ISO 3166-1 alpha-2 country code");
    ("region", "Region or state");
    ("asn", "Autonomous System Number");
    ("asOrganization", "Organization name for the ASN");
    ("userAgent", "User agent string from request headers") ].

(** The keys of the classifier's document. *)
Definition ip_keys : list string := ["ip"; "ipv4"; "ipv6"; "ipVersion"].

Definition count_char (c : ascii) (s : string) : nat :=
  length (List.filter (fun x => Ascii.eqb x c) (Str.chars s)).

(** The characters an IPv4 literal is written with. *)
Definition ipv4_char (c : ascii) : bool := Str.is_digit c || Ascii.eqb c ".".

(** The characters that separate field names: white space and the comma. *)
Definition separator_char (c : ascii) : bool := Str.is_white c || Ascii.eqb c ",".

Definition not_white (o : option ascii) : bool :=
  match o with
  | Some c => negb (Str.is_white c)
  | None => true
  end.

(** A field name as the parser hands it on: not empty, without a comma, and
    with no white space at either end. *)
Definition field_name (t : string) : bool :=
  negb (t =? "")%string && negb (Str.contains "," t)
  && not_white (Str.first t) && not_white (Str.last t).

(** The turn of the loop when [hasOwnProperty] is the method of
    [Object.prototype]. *)
Definition copyOwn (heap : store) (availableData : obj) (result : object)
    (field : string) : object :=
  match availableData !! field with
  | Some v => assign heap result field v
  | None => result
  end.

(** A dictionary none of whose own keys is [hasOwnProperty] or [__proto__]. *)
Definition plain_dictionary (o : obj) : bool :=
  match o !! "hasOwnProperty", o !! "__proto__" with
  | None, None => true
  | _, _ => false
  end.

(** A store with no nested object of interest. *)
Definition no_objects : store := fun _ => ∅.

(** A dictionary as [JSON.parse('{"__proto__": null}')] gives it. *)
Definition proto_null_data : obj := {[ "__proto__" := VNull ]}.

(** The sample dictionary with an own key [hasOwnProperty] added. *)
Definition shadowing_data : obj :=
  <["hasOwnProperty" := VBool true]> (availableData sample_request).

(** The same root request, now with a field list. *)
Definition with_fields (fields : string) (req : Request) : Request :=
  {| header_cf_connecting_ip := header_cf_connecting_ip req;
     header_user_agent := header_user_agent req;
     raw_cf := raw_cf req;
     query_fields := Some fields |}.

(** A request that carries no [cf-connecting-ip] header and no platform data. *)
Definition bare_request : Request :=
  {| header_cf_connecting_ip := None;
     header_user_agent := None;
     raw_cf := None;
     query_fields := None |}.

(** ** The definitions at work *)

Example isIPv4_documentation_address : isIPv4 "203.0.113.1" = true.
Proof. reflexivity. Qed.

Example isIPv4_no_range_check : isIPv4 "999.999.999.999" = true.
Proof. reflexivity. Qed.

Example isIPv4_ipv6_literal : isIPv4 "2001:0db8:85a3:0000:0000:8a2e:0370:7334" = false.
Proof. reflexivity. Qed.

Example isIPv4_four_digits : isIPv4 "1.2.3.4567" = false.
Proof. reflexivity. Qed.

Example isIPv4_three_groups : isIPv4 "1.2.3" = false.
Proof. reflexivity. Qed.

Example isIPv4_empty_group : isIPv4 "1..3.4" = false.
Proof. reflexivity. Qed.

(** [$] without the [m] flag does not match before a final line feed. *)
Example isIPv4_trailing_newline : isIPv4 ("1.2.3.4" +:+ String "010" "") = false.
Proof. reflexivity. Qed.

Example split_keeps_empty_pieces : Str.split "," ",a,,b," = [""; "a"; ""; "b"; ""].
Proof. reflexivity. Qed.

Example trim_both_sides : Str.trim (String "009" "  city " +:+ String "160" "") = "city".
Proof. reflexivity. Qed.

Example trim_keeps_inner_space : Str.trim " as organization " = "as organization".
Proof. reflexivity. Qed.

Example requestedFields_only_commas : requestedFields " , ," = [].
Proof. reflexivity. Qed.

Example all_fields_parse : requestedFields all_fields = catalog.
Proof. reflexivity. Qed.

(** ** Strings: append *)

Lemma sapp_nil_l (s : string) : "" +:+ s = s.
Proof. reflexivity. Qed.

Lemma sapp_cons (c : ascii) (s t : string) : String c s +:+ t = String c (s +:+ t).
Proof. reflexivity. Qed.

Lemma sapp_nil_r (s : string) : s +:+ "" = s.
Proof. induction s as [|c s IH]; [done|]. by rewrite sapp_cons, IH. Qed.

Lemma sapp_assoc (a b c : string) : (a +:+ b) +:+ c = a +:+ b +:+ c.
Proof. induction a as [|x a IH]; [done|]. by rewrite !sapp_cons, IH. Qed.

Lemma sapp_eq_nil (a b : string) : a +:+ b = "" → a = "" ∧ b = "".
Proof. destruct a; [by rewrite sapp_nil_l|by rewrite sapp_cons]. Qed.

Lemma sapp_length (a b : string) :
  String.length (a +:+ b) = (String.length a + String.length b)%nat.
Proof. induction a as [|x a IH]; [done|]. rewrite sapp_cons. simpl. by rewrite IH. Qed.

Lemma chars_sapp (a b : string) : Str.chars (a +:+ b) = Str.chars a ++ Str.chars b.
Proof. induction a as [|x a IH]; [done|]. rewrite sapp_cons. simpl. by rewrite IH. Qed.

Lemma all_sapp (p : ascii → bool) (a b : string) :
  Str.all p (a +:+ b) = Str.all p a && Str.all p b.
Proof. unfold Str.all. by rewrite chars_sapp, forallb_app. Qed.

(** ** The derivative matcher decides the language of the pattern *)

Lemma nullable_lang (r : Regex.regex) : Regex.nullable r = true ↔ Regex.lang r "".
Proof.
  induction r as [| |c| |r1 IH1 r2 IH2|r1 IH1 r2 IH2]; simpl.
  - split; [discriminate|tauto].
  - tauto.
  - split; discriminate.
  - split; [discriminate|]. intros (c & _ & Hc). discriminate.
  - rewrite andb_true_iff, IH1, IH2. split.
    + intros [H1 H2]. by exists "", "".
    + intros (s1 & s2 & Heq & H1 & H2).
      symmetry in Heq. apply sapp_eq_nil in Heq as [-> ->]. tauto.
  - rewrite orb_true_iff, IH1, IH2. tauto.
Qed.

Lemma deriv_lang (a : ascii) (r : Regex.regex) (s : string) :
  Regex.lang (Regex.deriv a r) s ↔ Regex.lang r (String a s).
Proof.
  revert s.
  induction r as [| |c| |r1 IH1 r2 IH2|r1 IH1 r2 IH2]; intros s; simpl.
  - tauto.
  - split; [tauto|discriminate].
  - destruct (Ascii.eqb_spec a c) as [->|Hne]; simpl.
    + split; [by intros ->|by intros [= ->]].
    + split; [tauto|]. intros [= ? ?]. congruence.
  - destruct (Str.is_digit a) eqn:Hd; simpl.
    + split; [intros ->; eauto|]. by intros (c & _ & [= _ ->]).
    + split; [tauto|]. intros (c & Hc & [= -> _]). congruence.
  - assert (Hcat : (∃ s1 s2, s = s1 +:+ s2
                      ∧ Regex.lang (Regex.deriv a r1) s1 ∧ Regex.lang r2 s2)
                   ∨ (Regex.lang r1 "" ∧ Regex.lang r2 (String a s))
                   ↔ ∃ s1 s2, String a s = s1 +:+ s2
                      ∧ Regex.lang r1 s1 ∧ Regex.lang r2 s2).
    { split.
      - intros [(s1 & s2 & -> & H1 & H2)|[H1 H2]].
        + exists (String a s1), s2. rewrite sapp_cons. by rewrite <- IH1.
        + by exists "", (String a s).
      - intros (s1 & s2 & Heq & H1 & H2). destruct s1 as [|b s1].
        + rewrite sapp_nil_l in Heq. subst s2. by right.
        + rewrite sapp_cons in Heq. injection Heq as <- ->.
          left. exists s1, s2. by rewrite IH1. }
    rewrite <- Hcat. destruct (Regex.nullable r1) eqn:Hn; simpl.
    + rewrite IH2. apply nullable_lang in Hn. tauto.
    + assert (¬ Regex.lang r1 "") by (rewrite <- nullable_lang; congruence).
      tauto.
  - by rewrite IH1, IH2.
Qed.

Lemma test_lang (r : Regex.regex) (s : string) :
  Regex.test r s = true ↔ Regex.lang r s.
Proof.
  revert r. induction s as [|a s IH]; intros r; simpl.
  - apply nullable_lang.
  - by rewrite IH, deriv_lang.
Qed.

(** ** [split] and [join] *)

Lemma split_not_nil (sep : ascii) (s : string) : Str.split sep s ≠ [].
Proof.
  destruct s as [|c s]; simpl; [done|].
  destruct (Ascii.eqb c sep); [done|]. by destruct (Str.split sep s).
Qed.

Lemma join_cons (sep : ascii) (p : string) (rest : list string) :
  rest ≠ [] → Str.join sep (p :: rest) = p +:+ String sep (Str.join sep rest).
Proof. by destruct rest. Qed.

Lemma join_split (sep : ascii) (s : string) : Str.join sep (Str.split sep s) = s.
Proof.
  induction s as [|c s IH]; [done|]. simpl.
  destruct (Ascii.eqb_spec c sep) as [->|Hne].
  - rewrite join_cons by apply split_not_nil. by rewrite IH.
  - pose proof (split_not_nil sep s) as Hnil.
    destruct (Str.split sep s) as [|p [|q rest]]; [done|..].
    + simpl in *. by rewrite IH.
    + rewrite join_cons by done. rewrite join_cons in IH by done.
      by rewrite sapp_cons, IH.
Qed.

Lemma split_no_sep (sep : ascii) (s : string) :
  Forall (fun p => Str.contains sep p = false) (Str.split sep s).
Proof.
  induction s as [|c s IH]; simpl.
  - by constructor.
  - destruct (Ascii.eqb c sep) eqn:Hc.
    + by constructor.
    + destruct (Str.split sep s) as [|p rest].
      * constructor; [|done]. unfold Str.contains. simpl. by rewrite Hc.
      * inversion IH as [|? ? Hp Hrest]; subst. constructor; [|done].
        unfold Str.contains in *. simpl. by rewrite Hc.
Qed.

Lemma split_piece (sep : ascii) (p : string) :
  Str.contains sep p = false → Str.split sep p = [p].
Proof.
  unfold Str.contains. induction p as [|c p IH]; simpl; [done|].
  intros [Hc Hp]%orb_false_iff. rewrite Hc. by rewrite IH.
Qed.

Lemma split_piece_sep (sep : ascii) (p rest : string) :
  Str.contains sep p = false →
  Str.split sep (p +:+ String sep rest) = p :: Str.split sep rest.
Proof.
  unfold Str.contains. induction p as [|c p IH]; simpl.
  - intros _. rewrite ?sapp_nil_l. simpl. by rewrite Ascii.eqb_refl.
  - intros [Hc Hp]%orb_false_iff. rewrite ?sapp_cons. simpl.
    rewrite Hc. by rewrite IH.
Qed.

Lemma split_join (sep : ascii) (pieces : list string) :
  pieces ≠ [] →
  Forall (fun p => Str.contains sep p = false) pieces →
  Str.split sep (Str.join sep pieces) = pieces.
Proof.
  induction pieces as [|p rest IH]; [done|]. intros _ Hall.
  inversion Hall as [|? ? Hp Hrest]; subst.
  destruct rest as [|q rest].
  - simpl. by apply split_piece.
  - rewrite join_cons by done. rewrite split_piece_sep by done.
    by rewrite IH.
Qed.

Lemma all_not_contains (p : ascii → bool) (c : ascii) (s : string) :
  Str.all p s = true → p c = false → Str.contains c s = false.
Proof.
  unfold Str.all, Str.contains. intros Hall Hc.
  induction s as [|x s IH]; simpl in *; [done|].
  apply andb_true_iff in Hall as [Hx Hs]. rewrite IH by done.
  destruct (Ascii.eqb_spec x c) as [->|]; [congruence|done].
Qed.

(** ** The pattern and the four groups *)

Lemma digits_lang (g : string) :
  Regex.lang (Regex.Repeat Regex.Digit 1 3) g ↔ digit_group g = true.
Proof.
  split.
  - cbn. intros (s1 & s2 & -> & (a & e & -> & (c1 & H1 & ->) & ->) & H2).
    unfold digit_group, Str.all.
    destruct H2 as [->|(b & t & -> & (c2 & H2 & ->) & [->|(d & u & -> & (c3 & H3 & ->) & ->)])];
      rewrite ?sapp_cons, ?sapp_nil_l; cbn; rewrite ?H1, ?H2, ?H3; done.
  - intros Hg. apply test_lang. revert Hg. unfold digit_group, Str.all.
    destruct g as [|c1 [|c2 [|c3 [|c4 g]]]]; cbn; try done;
      repeat (match goal with
              | |- context [Str.is_digit ?c] => destruct (Str.is_digit c)
              end; cbn); done.
Qed.

Lemma dotted_lang (r : Regex.regex) (s : string) :
  Regex.lang (Regex.Cat (Regex.Repeat (Regex.Cat r (Regex.Lit ".")) 3 3) r) s
  ↔ ∃ a b c d, s = Str.join "." [a; b; c; d]
      ∧ Regex.lang r a ∧ Regex.lang r b ∧ Regex.lang r c ∧ Regex.lang r d.
Proof.
  cbn. split.
  - intros (s1 & d & -> & (t & e & -> & Ht & ->) & Hd).
    destruct Ht as (g1 & t1 & -> & (a & x & -> & Ha & ->) & Ht).
    destruct Ht as (g2 & t2 & -> & (b & y & -> & Hb & ->) & Ht).
    destruct Ht as (g3 & t3 & -> & (c & z & -> & Hc & ->) & ->).
    exists a, b, c, d. split; [|done].
    by rewrite ?sapp_nil_r, ?sapp_assoc, ?sapp_cons, ?sapp_nil_l.
  - intros (a & b & c & d & -> & Ha & Hb & Hc & Hd).
    exists (((a +:+ ".") +:+ (b +:+ ".") +:+ (c +:+ ".") +:+ "") +:+ ""), d.
    split; [by rewrite ?sapp_nil_r, ?sapp_assoc, ?sapp_cons, ?sapp_nil_l|].
    split; [|done].
    exists ((a +:+ ".") +:+ (b +:+ ".") +:+ (c +:+ ".") +:+ ""), "".
    split; [done|]. split; [|done].
    exists (a +:+ "."), ((b +:+ ".") +:+ (c +:+ ".") +:+ "").
    split; [done|]. split; [by exists a, "."|].
    exists (b +:+ "."), ((c +:+ ".") +:+ "").
    split; [done|]. split; [by exists b, "."|].
    exists (c +:+ "."), "".
    split; [done|]. split; [by exists c, "."|done].
Qed.

Lemma digit_group_no_dot (g : string) :
  digit_group g = true → Str.contains "." g = false.
Proof.
  unfold digit_group. intros [_ Hall]%andb_true_iff.
  by apply (all_not_contains Str.is_digit).
Qed.

(** The pattern of the source accepts exactly the strings the specification
    describes. *)
Lemma isIPv4_shape (s : string) : isIPv4 s = ipv4_literal_shape s.
Proof.
  apply eq_true_iff_eq. unfold isIPv4. rewrite test_lang.
  unfold ipv4Pattern. rewrite dotted_lang. split.
  - intros (a & b & c & d & -> & Ha & Hb & Hc & Hd).
    apply digits_lang in Ha, Hb, Hc, Hd.
    unfold ipv4_literal_shape. rewrite split_join; [|done|].
    + by rewrite Ha, Hb, Hc, Hd.
    + repeat constructor; by apply digit_group_no_dot.
  - unfold ipv4_literal_shape. intros Hs.
    pose proof (join_split "." s) as Hj.
    destruct (Str.split "." s) as [|a [|b [|c [|d [|e rest]]]]]; try done.
    apply andb_true_iff in Hs as [[[Ha Hb]%andb_true_iff Hc]%andb_true_iff Hd].
    exists a, b, c, d. rewrite !digits_lang. by rewrite Hj.
Qed.

(** ** The projector's loop *)

Lemma copyField_builtin (heap : store) (available : obj) (result : object)
    (field : string) :
  available !! "hasOwnProperty" = None →
  copyField heap available result field = Normal (copyOwn heap available result field).
Proof.
  intros Hm. unfold copyField, hasOwnProperty, copyOwn, get. rewrite Hm.
  by destruct (available !! field).
Qed.

Lemma copyField_shadowed (heap : store) (available : obj) (result : object)
    (field : string) :
  is_Some (available !! "hasOwnProperty") →
  copyField heap available result field = Throw TypeError.
Proof. intros [v Hv]. unfold copyField, hasOwnProperty. by rewrite Hv. Qed.

Lemma forOf_builtin (heap : store) (available : obj) (fields : list string)
    (result : object) :
  available !! "hasOwnProperty" = None →
  forOf (copyField heap available) fields result
  = Normal (fold_left (copyOwn heap available) fields result).
Proof.
  intros Hm. revert result. induction fields as [|f fields IH]; intros result; [done|].
  simpl. by rewrite copyField_builtin, IH.
Qed.

Lemma forOf_shadowed (heap : store) (available : obj) (fields : list string)
    (result : object) :
  is_Some (available !! "hasOwnProperty") → fields ≠ [] →
  forOf (copyField heap available) fields result = Throw TypeError.
Proof.
  intros Hm Hne. destruct fields as [|f fields]; [done|].
  simpl. by rewrite copyField_shadowed.
Qed.

Lemma own_setPrototypeOf (o : object) (v : value) : own (setPrototypeOf o v) = own o.
Proof. by destruct v. Qed.

Lemma own_assign (heap : store) (o : object) (k : string) (v : value) :
  own (assign heap o k v) = <[k := v]> (own o) ∨ own (assign heap o k v) = own o.
Proof.
  unfold assign. case_decide; [|by left].
  destruct (own o !! k); [by left|].
  destruct (proto o) as [| |ref]; [right; apply own_setPrototypeOf|by left|].
  destruct (heap ref !! k); [by left|right; apply own_setPrototypeOf].
Qed.

Lemma assign_other (heap : store) (o : object) (k : string) (v : value) :
  k ≠ "__proto__" → assign heap o k v = defineOwn o k v.
Proof. intros Hk. unfold assign. by rewrite decide_False. Qed.

Lemma lookup_assign_ne (heap : store) (o : object) (k k' : string) (v : value) :
  k' ≠ "__proto__" → own (assign heap o k v) !! k' = <[k := v]> (own o) !! k'.
Proof.
  intros Hk'. destruct (decide (k = "__proto__")) as [->|Hk].
  - rewrite lookup_insert_ne by done.
    destruct (own_assign heap o "__proto__" v) as [-> | ->]; [|done].
    by rewrite lookup_insert_ne.
  - by rewrite assign_other.
Qed.

(** What the loop leaves under a key other than [__proto__]. *)
Lemma lookup_fold_copyOwn (heap : store) (available : obj) (fields : list string)
    (result : object) (k : string) :
  k ≠ "__proto__" →
  own (fold_left (copyOwn heap available) fields result) !! k =
    if decide (k ∈ fields)
    then match available !! k with Some v => Some v | None => own result !! k end
    else own result !! k.
Proof.
  intros Hk. revert result.
  induction fields as [|f fields IH]; intros result; cbn [fold_left].
  - rewrite decide_False; [done|]. apply not_elem_of_nil.
  - rewrite IH.
    assert (Hstep : own (copyOwn heap available result f) !! k
                    = if decide (f = k)
                      then match available !! k with
                           | Some v => Some v
                           | None => own result !! k
                           end
                      else own result !! k).
    { unfold copyOwn. destruct (decide (f = k)) as [->|Hfk].
      - destruct (available !! k) as [v|]; [|done].
        by rewrite lookup_assign_ne, lookup_insert_eq.
      - destruct (available !! f) as [v|]; [|done].
        by rewrite lookup_assign_ne, lookup_insert_ne. }
    rewrite Hstep.
    destruct (decide (k ∈ fields)) as [Hin|Hnin];
      destruct (decide (f = k)) as [->|Hne];
      destruct (decide (k ∈ _ :: fields)) as [Hin'|Hnin'];
      try (by destruct (available !! k)); exfalso;
      rewrite elem_of_cons in *; intuition congruence.
Qed.

(** A dictionary without an own [__proto__] never has the loop assign to
    that key: the prototype stays, and so does what is under that key. *)
Lemma fold_copyOwn_proto (heap : store) (available : obj) (fields : list string)
    (result : object) :
  available !! "__proto__" = None →
  proto (fold_left (copyOwn heap available) fields result) = proto result
  ∧ own (fold_left (copyOwn heap available) fields result) !! "__proto__"
    = own result !! "__proto__".
Proof.
  intros Hp. revert result.
  induction fields as [|f fields IH]; intros result; cbn [fold_left]; [done|].
  destruct (IH (copyOwn heap available result f)) as [-> ->].
  unfold copyOwn. destruct (available !! f) as [v|] eqn:Hf; [|done].
  assert (f ≠ "__proto__") by congruence.
  rewrite assign_other by done. simpl. by rewrite lookup_insert_ne.
Qed.

(** The keys of the object the loop fills are among the fields it went
    through. *)
Lemma dom_fold_copyOwn (heap : store) (available : obj) (fields : list string)
    (result : object) :
  dom (own (fold_left (copyOwn heap available) fields result))
  ⊆ dom (own result) ∪ list_to_set fields.
Proof.
  revert result. induction fields as [|f fields IH]; intros result; cbn [fold_left].
  - intros k Hk. by apply elem_of_union_l.
  - intros k Hk. apply IH in Hk. apply elem_of_union in Hk as [Hk|Hk].
    + unfold copyOwn in Hk. destruct (available !! f) as [v|].
      * destruct (own_assign heap result f v) as [Heq|Heq]; rewrite Heq in Hk.
        -- rewrite dom_insert_L in Hk. apply elem_of_union in Hk as [Hk|Hk].
           ++ apply elem_of_singleton in Hk as ->.
              apply elem_of_union_r, elem_of_list_to_set. by left.
           ++ by apply elem_of_union_l.
        -- by apply elem_of_union_l.
      * by apply elem_of_union_l.
    + apply elem_of_union_r. apply elem_of_list_to_set.
      apply elem_of_list_to_set in Hk. by right.
Qed.

Lemma requestedFields_empty : requestedFields "" = [].
Proof. reflexivity. Qed.


Lemma selective_builtin (heap : store) (fp : string) (available : obj) :
  fp ≠ "" → available !! "hasOwnProperty" = None →
  getRequestedFields heap (Some fp) available
  = Normal (fold_left (copyOwn heap available) (requestedFields fp) emptyObject).
Proof.
  intros Hfp Hm. destruct fp as [|c r]; [done|].
  unfold getRequestedFields. by apply forOf_builtin.
Qed.

Lemma plain_dictionary_spec (available : obj) :
  plain_dictionary available = true
  ↔ available !! "hasOwnProperty" = None ∧ available !! "__proto__" = None.
Proof.
  unfold plain_dictionary.
  destruct (available !! "hasOwnProperty"), (available !! "__proto__");
    split; try done; by intros [? ?].
Qed.

(** For a dictionary with plain keys the loop returns the restriction of the
    dictionary to the requested names, under [Object.prototype]. *)
Lemma selective_plain (heap : store) (fp : string) (available : obj) :
  fp ≠ "" → plain_dictionary available = true →
  getRequestedFields heap (Some fp) available
  = Normal {| own := filter (fun kv => kv.1 ∈ requestedFields fp) available;
              proto := ObjectPrototype |}.
Proof.
  intros Hfp [Hm Hp]%plain_dictionary_spec.
  rewrite selective_builtin by done. f_equal.
  destruct (fold_copyOwn_proto heap available (requestedFields fp) emptyObject Hp)
    as [Hproto Hown].
  destruct (fold_left _ _ _) as [o p] eqn:Hfold. simpl in *. subst p. f_equal.
  apply map_eq. intros k. apply option_eq. intros v.
  rewrite map_lookup_filter_Some. simpl.
  destruct (decide (k = "__proto__")) as [->|Hk].
  - rewrite Hown, Hp, lookup_empty. split; [done|by intros [? _]].
  - pose proof (lookup_fold_copyOwn heap available (requestedFields fp) emptyObject k Hk)
      as Hl.
    rewrite Hfold in Hl. simpl in Hl. rewrite Hl, lookup_empty.
    destruct (decide (k ∈ requestedFields fp)) as [Hin|Hnin].
    + destruct (available !! k); split; try done; tauto.
    + split; [done|tauto].
Qed.

Lemma requested_selective (fp f : string) : f ∈ requestedFields fp → fp ≠ "".
Proof. intros Hin ->. rewrite requestedFields_empty in Hin. by apply elem_of_nil in Hin. Qed.

Lemma all_cons (p : ascii → bool) (c : ascii) (s : string) :
  Str.all p (String c s) = p c && Str.all p s.
Proof. reflexivity. Qed.

Lemma all_mono (p q : ascii → bool) (s : string) :
  (∀ c, p c = true → q c = true) → Str.all p s = true → Str.all q s = true.
Proof.
  unfold Str.all. intros Hpq. induction s as [|c s IH]; simpl; [done|].
  intros [Hc Hs]%andb_true_iff. by rewrite (Hpq c Hc), IH.
Qed.

(** An IPv4 literal is written with digits and dots only, so no string with a
    colon, and in particular no IPv6 literal, has the IPv4 shape. *)
Lemma shape_alphabet (s : string) :
  ipv4_literal_shape s = true →
  Str.all (fun c => Str.is_digit c || Ascii.eqb c ".") s = true.
Proof.
  unfold ipv4_literal_shape. intros Hs.
  pose proof (join_split "." s) as Hj.
  destruct (Str.split "." s) as [|a [|b [|c [|d [|e rest]]]]]; try done.
  apply andb_true_iff in Hs as [[[Ha Hb]%andb_true_iff Hc]%andb_true_iff Hd].
  assert (Hg : ∀ g, digit_group g = true →
                 Str.all (fun c => Str.is_digit c || Ascii.eqb c ".") g = true).
  { unfold digit_group. intros g [_ Hall]%andb_true_iff.
    apply (all_mono Str.is_digit); [|done]. by intros x ->. }
  rewrite <- Hj. simpl.
  repeat (rewrite all_sapp || rewrite all_cons).
  by rewrite !Hg.
Qed.

Lemma colon_not_ipv4 (s : string) :
  Str.contains ":" s = true → ipv4_literal_shape s = false.
Proof.
  intros Hc. destruct (ipv4_literal_shape s) eqn:Hs; [|done].
  apply shape_alphabet in Hs.
  by rewrite (all_not_contains _ ":" s Hs) in Hc.
Qed.

(** ** The classifier *)

Lemma processIPAddress_cases (ip : string) :
  processIPAddress ip = if isIPv4 ip then ipv4_document ip else ipv6_document ip.
Proof. unfold processIPAddress. by destruct (isIPv4 ip). Qed.

(** C3: every string made of exactly four dot-separated groups of one to three
    digits (no range check on the groups) is classified as IPv4: the document
    is [{ip: s, ipv4: s, ipv6: null, ipVersion: 4}]. *)
Theorem processIPAddress_ipv4 (s : string) :
  ipv4_literal_shape s = true → processIPAddress s = ipv4_document s.
Proof.
  intros Hs. by rewrite processIPAddress_cases, isIPv4_shape, Hs.
Qed.

Lemma processIPAddress_ipv4_witness :
  processIPAddress "999.999.999.999" = ipv4_document "999.999.999.999"
  ∧ processIPAddress "203.0.113.1" = ipv4_document "203.0.113.1".
Proof.
  split.
  - apply (processIPAddress_ipv4 "999.999.999.999"). reflexivity.
  - apply (processIPAddress_ipv4 "203.0.113.1"). reflexivity.
Defined.

(** C4: every string that is not of the IPv4 shape, the empty string, IPv6
    literals and the fallback ["no IP"] among them, is classified as IPv6: the
    document is [{ip: s, ipv4: null, ipv6: s, ipVersion: 6}]. *)
Theorem processIPAddress_other (s : string) :
  ipv4_literal_shape s = false → processIPAddress s = ipv6_document s.
Proof.
  intros Hs. by rewrite processIPAddress_cases, isIPv4_shape, Hs.
Qed.

Lemma processIPAddress_other_witness :
  processIPAddress "" = ipv6_document ""
  ∧ processIPAddress "no IP" = ipv6_document "no IP"
  ∧ processIPAddress "2001:0db8:85a3:0000:0000:8a2e:0370:7334"
    = ipv6_document "2001:0db8:85a3:0000:0000:8a2e:0370:7334".
Proof.
  split; [|split].
  - apply (processIPAddress_other ""). reflexivity.
  - apply (processIPAddress_other "no IP"). reflexivity.
  - apply (processIPAddress_other "2001:0db8:85a3:0000:0000:8a2e:0370:7334").
    reflexivity.
Defined.

(** ** The projector *)

(** C1, at the inputs where the code departs from it.  A requested field
    [__proto__] that the dictionary has as an own property is not a key of
    the document: the assignment reaches the setter of [Object.prototype]
    and replaces the prototype.  And for a dictionary with an own property
    [hasOwnProperty] the loop raises a [TypeError] at its first turn. *)
Theorem requested_field_defects (heap : store) :
  ("__proto__" ∈ requestedFields "__proto__"
   ∧ "__proto__" ∈ dom proto_null_data
   ∧ getRequestedFields heap (Some "__proto__") proto_null_data
     = Normal {| own := ∅; proto := NullPrototype |})
  ∧ ("ip" ∈ requestedFields "ip"
     ∧ getRequestedFields heap (Some "ip") shadowing_data = Throw TypeError).
Proof.
  split; split; [compute_done|split; [compute_done|reflexivity]|compute_done|].
  apply (forOf_shadowed heap shadowing_data (requestedFields "ip")); [|done].
  compute_done.
Qed.

(** C2: in default mode the document has exactly the nine default keys,
    whatever the dictionary holds, each with what a read of that key in the
    dictionary yields: the value, [null] included, and [undefined] for a
    missing key, which stays a key of the document. *)
Theorem default_document (heap : store) (available : obj) :
  ∃ doc, getRequestedFields heap None available = Normal doc
    ∧ dom (own doc) = list_to_set default_keys
    ∧ ∀ k, k ∈ default_keys → own doc !! k = Some (get available k).
Proof.
  eexists. split; [reflexivity|]. simpl. split.
  - unfold defaultFields, default_keys.
    rewrite !dom_insert_L, dom_empty_L. reflexivity.
  - intros k Hk. unfold default_keys in Hk. unfold defaultFields.
    repeat (apply elem_of_cons in Hk as [->|Hk]; [by simplify_map_eq|]).
    by apply elem_of_nil in Hk.
Qed.

(** C5: a [fields] parameter that is present but empty gives the default
    document, as an absent one does. *)
Theorem empty_fields_is_default (heap : store) (available : obj) :
  getRequestedFields heap (Some "") available = getRequestedFields heap None available.
Proof. reflexivity. Qed.

(** ** Parsing the field list *)

Lemma trimStart_spec (p : string) :
  ∃ l, p = l +:+ Str.trimStart p
    ∧ Str.all Str.is_white l = true
    ∧ ∀ c, Str.first (Str.trimStart p) = Some c → Str.is_white c = false.
Proof.
  induction p as [|x p (l & Hp & Hl & Hfirst)]; simpl.
  - by exists "".
  - destruct (Str.is_white x) eqn:Hx.
    + exists (String x l). rewrite sapp_cons, <- Hp. repeat split; [|done].
      unfold Str.all in *. simpl. by rewrite Hx.
    + exists "". repeat split. simpl. by intros c [= <-].
Qed.

Lemma trimEnd_spec (s : string) :
  ∃ r, s = Str.trimEnd s +:+ r
    ∧ Str.all Str.is_white r = true
    ∧ ∀ c, Str.last (Str.trimEnd s) = Some c → Str.is_white c = false.
Proof.
  induction s as [|x s (r & Hs & Hr & Hlast)]; simpl.
  - by exists "".
  - destruct (Str.trimEnd s) as [|y t] eqn:Ht.
    + rewrite sapp_nil_l in Hs. subst r. destruct (Str.is_white x) eqn:Hx.
      * exists (String x s). repeat split; [|done].
        unfold Str.all in *. simpl. by rewrite Hx.
      * exists s. repeat split; [done|]. simpl. by intros c [= <-].
    + exists r. rewrite sapp_cons, <- Hs. repeat split; [done|].
      intros c Hc. by apply Hlast.
Qed.

Lemma trimEnd_first (s : string) (c : ascii) :
  Str.first (Str.trimEnd s) = Some c → Str.first s = Some c.
Proof.
  destruct s as [|x s]; simpl; [done|].
  destruct (Str.trimEnd s); [|done]. by destruct (Str.is_white x).
Qed.

Lemma trim_spec (p : string) : trimmed_of p (Str.trim p).
Proof.
  destruct (trimStart_spec p) as (l & Hp & Hl & Hfirst).
  destruct (trimEnd_spec (Str.trimStart p)) as (r & Hs & Hr & Hlast).
  exists l, r. unfold Str.trim. rewrite <- Hs. repeat split; try done.
  intros c Hc. by apply Hfirst, trimEnd_first.
Qed.

Lemma nonempty_length (t : string) :
  (0 <? String.length t)%nat = negb (t =? "")%string.
Proof. by destruct t. Qed.

(** C6: the field list is cut at every comma, each piece loses the white space
    around it, and the pieces left empty are discarded; what remains keeps its
    order and its repetitions.  So ["ip, city ,,timezone"] asks for [ip],
    [city] and [timezone]. *)
Theorem requestedFields_spec :
  (∀ fp : string, ∃ pieces tokens : list string,
      pieces ≠ []
      ∧ Str.join "," pieces = fp
      ∧ Forall (fun p => Str.contains "," p = false) pieces
      ∧ Forall2 trimmed_of pieces tokens
      ∧ requestedFields fp = List.filter (fun t => negb (t =? "")%string) tokens)
  ∧ requestedFields "ip, city ,,timezone" = ["ip"; "city"; "timezone"]
  ∧ requestedFields "region,ip, region" = ["region"; "ip"; "region"].
Proof.
  split; [|by split]. intros fp.
  exists (Str.split "," fp), (List.map (fun field => Str.trim field) (Str.split "," fp)).
  split; [apply split_not_nil|]. split; [apply join_split|].
  split; [apply split_no_sep|]. split.
  - induction (Str.split "," fp) as [|p ps IH]; simpl; constructor; [apply trim_spec|done].
  - unfold requestedFields. apply List.filter_ext. intros t. apply nonempty_length.
Qed.

(** C7, at an input where the code departs from it.  The field lists
    [__proto__] and [__proto__,__proto__] name the same set of fields, but on
    a dictionary with an own property [__proto__] that is [null] the first
    gives a document without keys and the second a document with the key
    [__proto__]: the first assignment removes the prototype, and the second
    then creates the property. *)
Theorem repeated_proto_field_differs (heap : store) :
  (∀ f, f ∈ requestedFields "__proto__" ↔ f ∈ requestedFields "__proto__,__proto__")
  ∧ getRequestedFields heap (Some "__proto__") proto_null_data
    = Normal {| own := ∅; proto := NullPrototype |}
  ∧ getRequestedFields heap (Some "__proto__,__proto__") proto_null_data
    = Normal {| own := {[ "__proto__" := VNull ]}; proto := NullPrototype |}.
Proof.
  split; [|by split].
  intros f. change (f ∈ ["__proto__"] ↔ f ∈ ["__proto__"; "__proto__"]).
  rewrite !elem_of_cons, elem_of_nil. tauto.
Qed.

(** C8, at an input where the code departs from it.  A dictionary that holds
    every field of the catalog and also an own property [hasOwnProperty]:
    asked for the whole catalog, the projector raises a [TypeError] and
    returns no document. *)
Theorem catalog_round_trip_raises (heap : store) :
  Forall (fun k => is_Some (shadowing_data !! k)) catalog
  ∧ requestedFields all_fields = catalog
  ∧ getRequestedFields heap (Some all_fields) shadowing_data = Throw TypeError.
Proof.
  split; [compute_done|]. split; [reflexivity|].
  apply (forOf_shadowed heap shadowing_data (requestedFields all_fields)); compute_done.
Qed.

(** C9, at an input where the code departs from it.  The projector is not
    free of errors: on a dictionary with an own property [hasOwnProperty],
    whatever its value, a field list that names a field makes it raise a
    [TypeError]. *)
Theorem projector_raises (heap : store) :
  getRequestedFields heap (Some "country") {[ "hasOwnProperty" := VNull ]}
    = Throw TypeError
  ∧ getRequestedFields heap (Some " country , ip") shadowing_data = Throw TypeError.
Proof.
  split; [reflexivity|].
  apply (forOf_shadowed heap shadowing_data (requestedFields " country , ip"));
    compute_done.
Qed.

(** ** The merged dictionary of the root route *)

(** C10 as stated fails when the [User-Agent] header is present and empty:
    the dictionary then holds [null], not the header's value. *)
Lemma userAgent_empty_header :
  header_user_agent empty_agent_request = Some ""
  ∧ availableData empty_agent_request !! "userAgent" = Some VNull
  ∧ availableData empty_agent_request !! "userAgent" ≠ Some (VStr "").
Proof. compute_done. Qed.

(** C10, amended: in the merged dictionary every key the platform supplies,
    [userAgent] apart, has the platform's value, also where the classifier
    gives one; and [userAgent] is the [User-Agent] header when that header is
    present and not empty, and [null] when it is absent or empty, whatever the
    platform supplies under that key. *)
Theorem availableData_merge (req : Request) :
  (∀ cf k v, raw_cf req = Some cf → cf !! k = Some v → k ≠ "userAgent" →
      availableData req !! k = Some v)
  ∧ availableData req !! "userAgent" =
      Some match header_user_agent req with
           | Some s => if decide (s = "") then VNull else VStr s
           | None => VNull
           end.
Proof.
  unfold availableData, spread. split.
  - intros cf k v -> Hk Hne. rewrite lookup_insert_ne by done.
    by apply lookup_union_Some_l.
  - rewrite lookup_insert_eq. unfold userAgentOf.
    by destruct (header_user_agent req) as [[|c r]|].
Qed.

(** ** The scenarios of the documentation *)

Example scenario_default :
  rootRoute no_objects {| DOMAIN := "ip.example.com" |} sample_request =
  JsonResponse 200
    (list_to_map
       [ ("ip", VStr "203.0.113.1"); ("ipv4", VStr "203.0.113.1"); ("ipv6", VNull);
         ("ipVersion", VNum 4); ("country", VStr "US"); ("region", VStr "California");
         ("asn", VNum 15169); ("asOrganization", VStr "Google LLC");
         ("userAgent", VStr "Mozilla/5.0...");
         ("docs_url", VStr "https://ip.example.com/docs") ]).
Proof. compute_done. Qed.

Example scenario_selective :
  getRequestedFields no_objects (Some "ip,city,timezone") (availableData sample_request) =
  Normal {| own := {[ "ip" := VStr "203.0.113.1"; "city" := VStr "San Francisco";
                      "timezone" := VStr "America/Los_Angeles" ]};
            proto := ObjectPrototype |}.
Proof. compute_done. Qed.

Example scenario_unknown_field :
  rootRoute no_objects {| DOMAIN := "ip.example.com" |}
    (with_fields "ip,bogusField" sample_request) =
  JsonResponse 200
    {[ "ip" := VStr "203.0.113.1";
       "docs_url" := VStr "https://ip.example.com/docs" ]}.
Proof. compute_done. Qed.

(** Without platform data the default body keeps six members: the four
    fields that are [undefined] are not written. *)
Example scenario_bare_request :
  rootRoute no_objects {| DOMAIN := "ip.example.com" |} bare_request =
  JsonResponse 200
    (list_to_map
       [ ("ip", VStr "no IP"); ("ipv4", VNull); ("ipv6", VStr "no IP");
         ("ipVersion", VNum 6); ("userAgent", VNull);
         ("docs_url", VStr "https://ip.example.com/docs") ]).
Proof. compute_done. Qed.

Example scenario_shadowed_method :
  rootRoute no_objects {| DOMAIN := "ip.example.com" |}
    {| header_cf_connecting_ip := Some "203.0.113.1";
       header_user_agent := None;
       raw_cf := Some {[ "hasOwnProperty" := VBool true ]};
       query_fields := Some "ip" |} =
  TextResponse 500 "Failed to retrieve ip".
Proof. compute_done. Qed.

(** ** What the pattern accepts *)

Lemma count_char_sapp (c : ascii) (a b : string) :
  count_char c (a +:+ b) = (count_char c a + count_char c b)%nat.
Proof.
  unfold count_char. by rewrite chars_sapp, List.filter_app, length_app.
Qed.

Lemma count_char_absent (c : ascii) (s : string) :
  Str.contains c s = false → count_char c s = 0%nat.
Proof.
  unfold Str.contains, count_char. induction s as [|x s IH]; simpl; [done|].
  intros [Hx Hs]%orb_false_iff. rewrite Hx. by apply IH.
Qed.

Lemma digit_group_length (g : string) :
  digit_group g = true → (1 ≤ String.length g ≤ 3)%nat.
Proof.
  unfold digit_group.
  intros [[H1 H3]%andb_true_iff _]%andb_true_iff.
  apply Nat.leb_le in H1, H3. lia.
Qed.

Lemma shape_groups (s : string) :
  ipv4_literal_shape s = true →
  ∃ a b c d, s = a +:+ "." +:+ b +:+ "." +:+ c +:+ "." +:+ d
    ∧ digit_group a = true ∧ digit_group b = true
    ∧ digit_group c = true ∧ digit_group d = true.
Proof.
  unfold ipv4_literal_shape. intros Hs.
  pose proof (join_split "." s) as Hj.
  destruct (Str.split "." s) as [|a [|b [|c [|d [|e rest]]]]]; try done.
  apply andb_true_iff in Hs as [[[Ha Hb]%andb_true_iff Hc]%andb_true_iff Hd].
  exists a, b, c, d. by rewrite <- Hj.
Qed.

(** X1: a string the pattern accepts is written with digits and dots only,
    has exactly three dots, and is 7 to 15 characters long; so white space
    around an address, a port or a zone suffix make it fail the test. *)
Theorem isIPv4_accepts_only (s : string) :
  isIPv4 s = true →
  Str.all ipv4_char s = true
  ∧ count_char "." s = 3%nat
  ∧ (7 ≤ String.length s ≤ 15)%nat.
Proof.
  rewrite isIPv4_shape. intros Hs. split; [by apply shape_alphabet|].
  destruct (shape_groups s Hs) as (a & b & c & d & -> & Ha & Hb & Hc & Hd).
  split.
  - rewrite !count_char_sapp.
    apply digit_group_no_dot, (count_char_absent ".") in Ha, Hb, Hc, Hd.
    by rewrite Ha, Hb, Hc, Hd.
  - rewrite !sapp_length. simpl.
    apply digit_group_length in Ha, Hb, Hc, Hd. lia.
Qed.

Lemma isIPv4_accepts_only_witness :
  Str.all ipv4_char "203.0.113.1" = true
  ∧ count_char "." "203.0.113.1" = 3%nat
  ∧ (7 ≤ String.length "203.0.113.1" ≤ 15)%nat.
Proof. apply (isIPv4_accepts_only "203.0.113.1"). reflexivity. Defined.

Lemma processIPAddress_ip (ip : string) : processIPAddress ip !! "ip" = Some (VStr ip).
Proof. rewrite processIPAddress_cases. by destruct (isIPv4 ip). Qed.

Lemma processIPAddress_dom (ip : string) :
  dom (processIPAddress ip) = list_to_set ip_keys.
Proof.
  unfold processIPAddress, ip_keys.
  destruct (isIPv4 ip); rewrite !dom_insert_L, dom_empty_L; simpl; set_solver.
Qed.

(** X2: the classifier loses nothing: two addresses with the same document
    are the same address. *)
Theorem processIPAddress_injective (ip ip' : string) :
  processIPAddress ip = processIPAddress ip' → ip = ip'.
Proof.
  intros Heq. pose proof (processIPAddress_ip ip) as Hip.
  rewrite Heq, processIPAddress_ip in Hip. by injection Hip.
Qed.

Lemma processIPAddress_injective_witness : "203.0.113.1" = "203.0.113.1".
Proof. apply (processIPAddress_injective "203.0.113.1" "203.0.113.1"). reflexivity. Defined.

(** ** The projector as a restriction *)

Lemma plain_dictionary_subseteq (m available : obj) :
  m ⊆ available → plain_dictionary available = true → plain_dictionary m = true.
Proof.
  intros Hsub [Hm Hp]%plain_dictionary_spec. apply plain_dictionary_spec.
  split; by eapply lookup_weaken_None.
Qed.

Lemma filter_requested_lookup (fp : string) (available : obj) (k : string) (v : value) :
  filter (fun kv : string * value => kv.1 ∈ requestedFields fp) available !! k = Some v
  ↔ k ∈ requestedFields fp ∧ available !! k = Some v.
Proof. rewrite map_lookup_filter_Some. simpl. tauto. Qed.

(** X3: for a dictionary none of whose own keys is [hasOwnProperty] or
    [__proto__], the projector with a field list returns an ordinary object
    that is the dictionary restricted to the requested names: it is part of
    the dictionary, so no key or value is made up, and nothing that was not
    asked for gets through. *)
Theorem selective_restriction (heap : store) (fp : string) (available : obj) :
  fp ≠ "" → plain_dictionary available = true →
  ∃ doc, getRequestedFields heap (Some fp) available = Normal doc
    ∧ proto doc = ObjectPrototype
    ∧ own doc = filter (fun kv => kv.1 ∈ requestedFields fp) available
    ∧ own doc ⊆ available.
Proof.
  intros Hfp Hplain. eexists. split; [by apply selective_plain|].
  simpl. split; [done|]. split; [done|]. apply map_filter_subseteq.
Qed.

Lemma selective_restriction_witness :
  ∃ doc, getRequestedFields no_objects (Some "ip, ipv6,bogusField") null_ipv6_data
         = Normal doc
    ∧ proto doc = ObjectPrototype
    ∧ own doc = filter (fun kv => kv.1 ∈ requestedFields "ip, ipv6,bogusField")
                  null_ipv6_data
    ∧ own doc ⊆ null_ipv6_data.
Proof.
  apply (selective_restriction no_objects "ip, ipv6,bogusField" null_ipv6_data);
    [done|reflexivity].
Defined.

(** X4: for such a dictionary, asking for more never gives less: when every
    name of one field list is also in another, the document of the first is
    part of the document of the second. *)
Theorem selective_monotone (heap : store) (fp1 fp2 : string) (available : obj) :
  fp1 ≠ "" → fp2 ≠ "" → plain_dictionary available = true →
  requestedFields fp1 ⊆ requestedFields fp2 →
  ∃ doc1 doc2,
    getRequestedFields heap (Some fp1) available = Normal doc1
    ∧ getRequestedFields heap (Some fp2) available = Normal doc2
    ∧ own doc1 ⊆ own doc2.
Proof.
  intros H1 H2 Hplain Hsub. do 2 eexists.
  split; [by apply selective_plain|]. split; [by apply selective_plain|].
  simpl. apply map_subseteq_spec. intros k v.
  rewrite !filter_requested_lookup. intros [Hin Hv]. split; [|done].
  by apply Hsub.
Qed.

Lemma selective_monotone_witness :
  ∃ doc1 doc2,
    getRequestedFields no_objects (Some "city") (availableData sample_request)
      = Normal doc1
    ∧ getRequestedFields no_objects (Some "ip, city,timezone")
        (availableData sample_request) = Normal doc2
    ∧ own doc1 ⊆ own doc2.
Proof.
  apply (selective_monotone no_objects "city" "ip, city,timezone");
    [done|done|reflexivity|].
  change (["city"] ⊆ ["ip"; "city"; "timezone"]).
  intros k Hk. apply elem_of_cons in Hk as [->|Hk]; [|by apply elem_of_nil in Hk].
  rewrite !elem_of_cons. tauto.
Defined.

Lemma defaultFields_get (available : obj) (k : string) :
  k ∈ default_keys → get (defaultFields available) k = get available k.
Proof.
  intros Hk. unfold default_keys in Hk. unfold get at 1. unfold defaultFields.
  repeat (apply elem_of_cons in Hk as [->|Hk]; [by simplify_map_eq|]).
  by apply elem_of_nil in Hk.
Qed.

Lemma defaultFields_idempotent (available : obj) :
  defaultFields (defaultFields available) = defaultFields available.
Proof.
  unfold defaultFields at 1 3.
  rewrite !defaultFields_get; [done|unfold default_keys; set_solver..].
Qed.

(** X5: for such a dictionary, the document the projector returns is an
    ordinary object, and projecting it again with the same field parameter
    returns it unchanged, in default mode as in selective mode. *)
Theorem getRequestedFields_idempotent (heap : store) (fp : option string)
    (available : obj) :
  plain_dictionary available = true →
  ∃ doc, getRequestedFields heap fp available = Normal doc
    ∧ proto doc = ObjectPrototype
    ∧ getRequestedFields heap fp (own doc) = Normal doc.
Proof.
  intros Hplain.
  assert (Hdef : ∃ doc,
             Normal {| own := defaultFields available; proto := ObjectPrototype |}
             = Normal doc
             ∧ proto doc = ObjectPrototype
             ∧ Normal {| own := defaultFields (own doc); proto := ObjectPrototype |}
               = Normal doc).
  { eexists. split; [reflexivity|]. simpl. by rewrite defaultFields_idempotent. }
  destruct fp as [[|c r]|]; [exact Hdef| |exact Hdef].
  set (fp := String c r).
  exists {| own := filter (fun kv => kv.1 ∈ requestedFields fp) available;
            proto := ObjectPrototype |}.
  split; [by apply selective_plain|]. split; [done|].
  cbn [own]. rewrite selective_plain; [|done|].
  - do 2 f_equal. apply map_eq. intros k. apply option_eq. intros v.
    rewrite !filter_requested_lookup. tauto.
  - eapply plain_dictionary_subseteq; [apply map_filter_subseteq|done].
Qed.

Lemma getRequestedFields_idempotent_witness :
  ∃ doc, getRequestedFields no_objects (Some "ip,city,ip") (availableData sample_request)
         = Normal doc
    ∧ proto doc = ObjectPrototype
    ∧ getRequestedFields no_objects (Some "ip,city,ip") (own doc) = Normal doc.
Proof.
  apply (getRequestedFields_idempotent no_objects (Some "ip,city,ip")
           (availableData sample_request)).
  reflexivity.
Defined.

(** X6: for such a dictionary, two field lists applied one after the other
    leave the fields named by both, with the dictionary's values, in
    whichever order they are applied. *)
Theorem selective_composition (heap : store) (fp1 fp2 : string) (available : obj) :
  fp1 ≠ "" → fp2 ≠ "" → plain_dictionary available = true →
  ∃ doc1 doc2 both,
    getRequestedFields heap (Some fp1) available = Normal doc1
    ∧ getRequestedFields heap (Some fp2) available = Normal doc2
    ∧ getRequestedFields heap (Some fp2) (own doc1) = Normal both
    ∧ getRequestedFields heap (Some fp1) (own doc2) = Normal both
    ∧ own both
      = filter (fun kv => kv.1 ∈ requestedFields fp1 ∧ kv.1 ∈ requestedFields fp2)
          available.
Proof.
  intros H1 H2 Hplain.
  assert (Hp : ∀ fp, plain_dictionary
                 (filter (fun kv : string * value => kv.1 ∈ requestedFields fp) available)
               = true).
  { intros fp. eapply plain_dictionary_subseteq; [apply map_filter_subseteq|done]. }
  exists {| own := filter (fun kv => kv.1 ∈ requestedFields fp1) available;
            proto := ObjectPrototype |},
         {| own := filter (fun kv => kv.1 ∈ requestedFields fp2) available;
            proto := ObjectPrototype |},
         {| own := filter (fun kv => kv.1 ∈ requestedFields fp2)
                     (filter (fun kv => kv.1 ∈ requestedFields fp1) available);
            proto := ObjectPrototype |}.
  split; [by apply selective_plain|]. split; [by apply selective_plain|].
  cbn [own]. split; [by apply selective_plain|]. split.
  - rewrite selective_plain by done. do 2 f_equal.
    apply map_eq. intros k. apply option_eq. intros v.
    rewrite !filter_requested_lookup. tauto.
  - apply map_eq. intros k. apply option_eq. intros v.
    rewrite !filter_requested_lookup, map_lookup_filter_Some. simpl. tauto.
Qed.

Lemma selective_composition_witness :
  ∃ doc1 doc2 both,
    getRequestedFields no_objects (Some "ip, country") (availableData sample_request)
      = Normal doc1
    ∧ getRequestedFields no_objects (Some "city,ip") (availableData sample_request)
      = Normal doc2
    ∧ getRequestedFields no_objects (Some "city,ip") (own doc1) = Normal both
    ∧ getRequestedFields no_objects (Some "ip, country") (own doc2) = Normal both
    ∧ own both
      = filter (fun kv => kv.1 ∈ requestedFields "ip, country"
                          ∧ kv.1 ∈ requestedFields "city,ip")
          (availableData sample_request).
Proof.
  apply (selective_composition no_objects "ip, country" "city,ip");
    [done|done|reflexivity].
Defined.

(** X17: also when the dictionary has an own property [__proto__], every
    other requested field is copied as it should: provided no own property
    is named [hasOwnProperty], a requested field other than [__proto__] is a
    key of the document exactly when it is one of the dictionary, with the
    dictionary's value. *)
Theorem requested_field_copied (heap : store) (fp : string) (available : obj)
    (f : string) :
  available !! "hasOwnProperty" = None →
  f ∈ requestedFields fp → f ≠ "__proto__" →
  ∃ doc, getRequestedFields heap (Some fp) available = Normal doc
    ∧ (f ∈ dom (own doc) ↔ f ∈ dom available)
    ∧ own doc !! f = available !! f.
Proof.
  intros Hm Hin Hf. eexists.
  split; [apply selective_builtin; [by eapply requested_selective|done]|].
  assert (Hl : own (fold_left (copyOwn heap available) (requestedFields fp) emptyObject)
               !! f = available !! f).
  { rewrite lookup_fold_copyOwn by done. rewrite decide_True by done.
    simpl. rewrite lookup_empty. by destruct (available !! f). }
  split; [|done]. by rewrite !elem_of_dom, Hl.
Qed.

Lemma requested_field_copied_witness :
  ∃ doc, getRequestedFields no_objects (Some "__proto__, ip")
           (<["ip" := VStr "203.0.113.1"]> proto_null_data) = Normal doc
    ∧ ("ip" ∈ dom (own doc) ↔ "ip" ∈ dom (<["ip" := VStr "203.0.113.1"]> proto_null_data))
    ∧ own doc !! "ip" = <["ip" := VStr "203.0.113.1"]> proto_null_data !! "ip".
Proof.
  apply (requested_field_copied no_objects "__proto__, ip"
           (<["ip" := VStr "203.0.113.1"]> proto_null_data) "ip"); [reflexivity| |done].
  change ("ip" ∈ ["__proto__"; "ip"]). rewrite !elem_of_cons. tauto.
Defined.

(** X18: the projector raises exactly when the field list names at least
    one field and the dictionary has an own property [hasOwnProperty]; in
    every other case it returns a document. *)
Theorem getRequestedFields_raises (heap : store) (fp : option string)
    (available : obj) :
  (getRequestedFields heap fp available = Throw TypeError
   ↔ ∃ s, fp = Some s ∧ requestedFields s ≠ []
          ∧ is_Some (available !! "hasOwnProperty"))
  ∧ (getRequestedFields heap fp available = Throw TypeError
     ∨ ∃ doc, getRequestedFields heap fp available = Normal doc).
Proof.
  split.
  - split.
    + destruct fp as [[|c r]|]; [done| |done].
      intros Hthrow. exists (String c r). split; [done|].
      destruct (available !! "hasOwnProperty") as [m|] eqn:Hm.
      * split; [|by eexists]. intros Hnil.
        unfold getRequestedFields in Hthrow. by rewrite Hnil in Hthrow.
      * by rewrite selective_builtin in Hthrow.
    + intros (s & -> & Hne & Hm). destruct s as [|c r]; [done|].
      unfold getRequestedFields. by apply forOf_shadowed.
  - destruct (getRequestedFields heap fp available) as [doc|[]]; [right; by eexists|by left].
Qed.

(** ** What the parser hands on *)

Lemma contains_sapp (c : ascii) (a b : string) :
  Str.contains c (a +:+ b) = Str.contains c a || Str.contains c b.
Proof. unfold Str.contains. by rewrite chars_sapp, existsb_app. Qed.

Lemma not_white_spec (o : option ascii) :
  (∀ c, o = Some c → Str.is_white c = false) → not_white o = true.
Proof. destruct o as [c|]; simpl; [|done]. intros H. by rewrite (H c). Qed.

Lemma trimmed_field_name (p t : string) :
  Str.contains "," p = false → trimmed_of p t → t ≠ "" → field_name t = true.
Proof.
  intros Hp (l & r & -> & _ & _ & Hfirst & Hlast) Hne.
  rewrite !contains_sapp in Hp.
  apply orb_false_iff in Hp as [_ [Ht _]%orb_false_iff].
  unfold field_name. rewrite Ht, !not_white_spec by done.
  by destruct t.
Qed.

Lemma requestedFields_elem (fp t : string) :
  t ∈ requestedFields fp ↔ t ≠ "" ∧ ∃ p, p ∈ Str.split "," fp ∧ t = Str.trim p.
Proof.
  unfold requestedFields.
  rewrite list_elem_of_In, List.filter_In, List.in_map_iff. split.
  - intros [(p & <- & Hp) Hlen]. split; [by destruct (Str.trim p)|].
    exists p. by rewrite list_elem_of_In.
  - intros [Hne (p & Hp & ->)]. split.
    + exists p. by rewrite <- list_elem_of_In.
    + by destruct (Str.trim p).
Qed.

(** X7: every name the parser hands on is a proper field name: it is not
    empty, holds no comma, and neither starts nor ends with white space. *)
Theorem requestedFields_field_names (fp : string) :
  Forall (fun t => field_name t = true) (requestedFields fp).
Proof.
  apply Forall_forall. intros t [Hne (p & Hp & ->)]%requestedFields_elem.
  apply (trimmed_field_name p); [|apply trim_spec|done].
  pose proof (split_no_sep "," fp) as Hall.
  by apply (proj1 (Forall_forall _ _) Hall).
Qed.

Lemma trimStart_id (t : string) : not_white (Str.first t) = true → Str.trimStart t = t.
Proof. destruct t as [|c r]; simpl; [done|]. by destruct (Str.is_white c). Qed.

Lemma trimEnd_id (t : string) : not_white (Str.last t) = true → Str.trimEnd t = t.
Proof.
  induction t as [|c r IH]; [done|]. destruct r as [|c' r'].
  - simpl. by destruct (Str.is_white c).
  - intros Hlast. change (Str.last (String c (String c' r')))
      with (Str.last (String c' r')) in Hlast.
    change (Str.trimEnd (String c (String c' r')))
      with (match Str.trimEnd (String c' r') with
            | EmptyString => if Str.is_white c then EmptyString else String c EmptyString
            | t => String c t
            end).
    by rewrite IH.
Qed.

Lemma trim_field_name (t : string) : field_name t = true → Str.trim t = t.
Proof.
  unfold field_name, Str.trim.
  intros [[_ Hfirst]%andb_true_iff Hlast]%andb_true_iff.
  rewrite trimStart_id by done. by apply trimEnd_id.
Qed.

(** X8: joining field names with commas and parsing the result gives the
    names back, in the same order and with their repetitions. *)
Theorem requestedFields_join (fields : list string) :
  Forall (fun t => field_name t = true) fields →
  requestedFields (Str.join "," fields) = fields.
Proof.
  intros Hall. destruct (decide (fields = [])) as [->|Hne]; [done|].
  unfold requestedFields. rewrite split_join; [|done|].
  - induction Hall as [|t ts Ht Hts IH]; [done|]. simpl.
    rewrite trim_field_name by done.
    assert ((0 <? String.length t)%nat = true) as ->.
    { unfold field_name in Ht. by destruct t. }
    f_equal. destruct ts as [|t' ts']; [done|]. by apply IH.
  - eapply Forall_impl; [exact Hall|]. intros t. unfold field_name.
    intros [[[_ Hc]%andb_true_iff _]%andb_true_iff _]%andb_true_iff.
    by destruct (Str.contains "," t).
Qed.

Lemma requestedFields_join_witness :
  requestedFields (Str.join "," ["region"; "as organization"; "ip"; "region"])
  = ["region"; "as organization"; "ip"; "region"].
Proof.
  apply (requestedFields_join ["region"; "as organization"; "ip"; "region"]).
  repeat constructor.
Defined.

(** ** Field lists that name nothing *)

Lemma trim_white (p : string) : Str.all Str.is_white p = true → Str.trim p = "".
Proof.
  unfold Str.trim, Str.all. induction p as [|c p IH]; simpl; [done|].
  intros [Hc Hp]%andb_true_iff. rewrite Hc. by apply IH.
Qed.

Lemma trim_empty_white (p : string) : Str.trim p = "" → Str.all Str.is_white p = true.
Proof.
  intros Ht. destruct (trim_spec p) as (l & r & Hp & Hl & Hr & _).
  rewrite Ht, sapp_nil_l in Hp. subst p. by rewrite all_sapp, Hl, Hr.
Qed.

Lemma split_all (q : ascii → bool) (sep : ascii) (s : string) :
  Str.all (fun c => q c || Ascii.eqb c sep) s = true →
  Forall (fun p => Str.all q p = true) (Str.split sep s).
Proof.
  unfold Str.all. induction s as [|c s IH]; simpl.
  - intros _. by repeat constructor.
  - intros [Hc Hs]%andb_true_iff. specialize (IH Hs).
    destruct (Ascii.eqb c sep) eqn:Hsep.
    + by constructor.
    + rewrite orb_false_r in Hc.
      destruct (Str.split sep s) as [|p rest].
      * repeat constructor. simpl. by rewrite Hc.
      * inversion IH as [|? ? Hp Hrest]; subst.
        constructor; [|done]. simpl. by rewrite Hc, Hp.
Qed.

Lemma join_all (q : ascii → bool) (sep : ascii) (pieces : list string) :
  q sep = true →
  Forall (fun p => Str.all q p = true) pieces →
  Str.all q (Str.join sep pieces) = true.
Proof.
  intros Hsep Hall. induction Hall as [|p rest Hp Hrest IH]; [done|].
  destruct rest as [|p' rest']; [done|].
  rewrite join_cons by done. by rewrite all_sapp, all_cons, Hp, Hsep, IH.
Qed.

Lemma filter_nil_iff {A} (f : A → bool) (l : list A) :
  List.filter f l = [] ↔ Forall (fun x => f x = false) l.
Proof.
  induction l as [|x l IH]; simpl.
  - split; [constructor|done].
  - destruct (f x) eqn:Hx.
    + split; [done|]. intros H. inversion H; congruence.
    + rewrite IH. split; [by constructor|]. intros H. by inversion H.
Qed.

Lemma requestedFields_nil (fp : string) :
  requestedFields fp = [] ↔ Str.all separator_char fp = true.
Proof.
  unfold requestedFields. rewrite filter_nil_iff, Forall_map. split.
  - intros Hall. rewrite <- (join_split "," fp).
    apply join_all; [done|]. eapply Forall_impl; [exact Hall|].
    intros p Hp. apply (all_mono Str.is_white).
    + intros c Hc. unfold separator_char. by rewrite Hc.
    + apply trim_empty_white. simpl in Hp. by destruct (Str.trim p).
  - intros Hall. eapply Forall_impl; [exact (split_all Str.is_white "," fp Hall)|].
    intros p Hp. simpl. by rewrite trim_white.
Qed.

(** X9: a field list names nothing exactly when it is made of commas and
    white space only; such a list, unless it is empty, gives the empty
    document, whatever the dictionary holds, and not the default one. *)
Theorem separators_only (heap : store) (fp : string) :
  (requestedFields fp = [] ↔ Str.all separator_char fp = true)
  ∧ (fp ≠ "" → Str.all separator_char fp = true →
     ∀ available : obj, getRequestedFields heap (Some fp) available = Normal emptyObject).
Proof.
  split; [apply requestedFields_nil|].
  intros Hfp Hsep available. apply requestedFields_nil in Hsep.
  destruct fp as [|c r]; [done|]. unfold getRequestedFields. by rewrite Hsep.
Qed.

(** ** The root route *)

Lemma availableData_dom (req : Request) :
  dom (availableData req) = list_to_set (ip_keys ++ ["userAgent"]) ∪ dom (cfData req).
Proof.
  unfold availableData, spread, cfData.
  rewrite dom_insert_L, dom_union_L, processIPAddress_dom.
  unfold ip_keys. simpl. apply set_eq. intros k.
  rewrite !elem_of_union, !elem_of_singleton, elem_of_empty. tauto.
Qed.

Lemma availableData_platform_silent (req : Request) (k : string) :
  k ≠ "userAgent" → cfData req !! k = None →
  availableData req !! k = processIPAddress (connectingIp req) !! k.
Proof.
  unfold availableData, spread, cfData, connectingIp. intros Hk Hcf.
  rewrite lookup_insert_ne by done. by apply lookup_union_r.
Qed.

(** X10: the merged dictionary always has the classifier's four keys and
    [userAgent] as own properties, next to whatever the platform supplies;
    and a key the platform does not supply, [userAgent] apart, has the
    classifier's value for the connecting address. *)
Theorem availableData_worker_keys (req : Request) :
  dom (availableData req) = list_to_set (ip_keys ++ ["userAgent"]) ∪ dom (cfData req)
  ∧ ∀ k, k ≠ "userAgent" → cfData req !! k = None →
      availableData req !! k = processIPAddress (connectingIp req) !! k.
Proof.
  split; [apply availableData_dom|]. intros k. apply availableData_platform_silent.
Qed.

(** X11: when the [cf-connecting-ip] header is absent or empty the address
    is reported as ["no IP"] and classified as IPv6: every key the platform
    leaves alone, [userAgent] apart, is as in
    [{ip: "no IP", ipv4: null, ipv6: "no IP", ipVersion: 6}]. *)
Theorem missing_ip_header (req : Request) (k : string) :
  header_cf_connecting_ip req = None ∨ header_cf_connecting_ip req = Some "" →
  k ≠ "userAgent" → cfData req !! k = None →
  availableData req !! k = ipv6_document "no IP" !! k.
Proof.
  intros Hip Hk Hcf. rewrite availableData_platform_silent by done.
  unfold connectingIp. by destruct Hip as [-> | ->].
Qed.

Lemma missing_ip_header_witness :
  availableData bare_request !! "ipVersion" = ipv6_document "no IP" !! "ipVersion"
  ∧ availableData (mkRequest (Some "") None (Some sample_cf) None) !! "ipv6"
    = ipv6_document "no IP" !! "ipv6".
Proof.
  split.
  - apply (missing_ip_header bare_request "ipVersion"); [by left|done|done].
  - apply (missing_ip_header (mkRequest (Some "") None (Some sample_cf) None) "ipv6");
      [by right|done|compute_done].
Defined.
















(** X15: the documentation agrees with the default branch: the keys that
    [getDocumentation] lists under [defaultResponse] are exactly the keys of
    the default document, for every dictionary, and each of them is one of
    the documented [availableFields]. *)
Theorem documentation_default_keys (heap : store) (available : obj) :
  (∃ doc, getRequestedFields heap None available = Normal doc
     ∧ dom (own doc) = list_to_set (List.map fst defaultResponse))
  ∧ List.map fst defaultResponse ⊆ catalog.
Proof.
  split.
  - eexists. split; [reflexivity|]. simpl. unfold defaultFields.
    rewrite !dom_insert_L, dom_empty_L. reflexivity.
  - intros k Hk. unfold defaultResponse in Hk. simpl in Hk.
    repeat (apply elem_of_cons in Hk as [->|Hk]; [compute_done|]).
    by apply elem_of_nil in Hk.
Qed.

(** ** How many names a field list can hold *)

Lemma split_length (sep : ascii) (s : string) :
  length (Str.split sep s) = S (count_char sep s).
Proof.
  unfold count_char. induction s as [|c s IH]; simpl; [done|].
  destruct (Ascii.eqb c sep); simpl; [by rewrite IH|].
  pose proof (split_not_nil sep s) as Hnil.
  by destruct (Str.split sep s).
Qed.

Lemma size_list_to_set_length (l : list string) :
  (size (list_to_set l : gset string) ≤ length l)%nat.
Proof.
  induction l as [|x l IH]; [done|].
  change (list_to_set (x :: l) : gset string) with ({[x]} ∪ list_to_set l : gset string).
  rewrite size_union_alt, size_singleton. simpl.
  pose proof (subseteq_size (list_to_set l ∖ {[x]}) (list_to_set l : gset string)) as Hle.
  assert (list_to_set l ∖ {[x]} ⊆ (list_to_set l : gset string)) as Hsub.
  { intros k [Hk _]%elem_of_difference. exact Hk. }
  specialize (Hle Hsub). lia.
Qed.

Lemma forOf_dom (heap : store) (available : obj) (fields : list string)
    (result doc : object) :
  forOf (copyField heap available) fields result = Normal doc →
  dom (own doc) ⊆ dom (own result) ∪ list_to_set fields.
Proof.
  destruct (available !! "hasOwnProperty") as [m|] eqn:Hm.
  - destruct fields as [|f fields].
    + intros [= <-]. intros k Hk. by apply elem_of_union_l.
    + rewrite forOf_shadowed; [done|by eexists|done].
  - rewrite forOf_builtin by done. intros [= <-]. apply dom_fold_copyOwn.
Qed.

(** X16: a field list with [n] commas asks for at most [n + 1] names, and
    every document the projector returns for it has at most that many
    keys. *)
Theorem requestedFields_bound (heap : store) (fp : string) (available : obj) :
  (length (requestedFields fp) ≤ count_char "," fp + 1)%nat
  ∧ ∀ doc, fp ≠ "" → getRequestedFields heap (Some fp) available = Normal doc →
      (size (own doc) ≤ count_char "," fp + 1)%nat.
Proof.
  assert (Hlen : (length (requestedFields fp) ≤ count_char "," fp + 1)%nat).
  { unfold requestedFields.
    etrans; [apply List.filter_length_le|].
    rewrite length_map, split_length. lia. }
  split; [done|]. intros doc Hfp Hdoc.
  destruct fp as [|c r]; [done|]. unfold getRequestedFields in Hdoc.
  apply forOf_dom in Hdoc. simpl in Hdoc.
  etrans; [|exact Hlen].
  rewrite <- size_dom.
  etrans; [apply subseteq_size, Hdoc|].
  rewrite dom_empty_L, (left_id_L ∅ (∪)).
  apply size_list_to_set_length.
Qed.
